(** * Locale handling of the frontend (src/frontend/src/core/i18n.ts)

    A shallow embedding of the locale catalog, of the base-language index
    built from it, of [normalizeLocale], [updateSupportedLanguages] and
    [applyDefaultLocale], and of the effect of [AppConfigLoader], together
    with the properties the specification states about them.

    Strings are sequences of 8-bit characters. Locale tags are ASCII, and
    [toLowerCase] is modelled on them: it maps the letters A-Z and leaves
    every other character as it is. *)

From Stdlib Require Import String Ascii List Bool Lia.
From stdpp Require Import base option list strings gmap.
Import ListNotations.

Local Open Scope string_scope.
Local Open Scope list_scope.

(** ** JavaScript strings and values *)

Module Js.

(** [s.replaceAll(a, b)] for one-character [a] and [b]. *)
Fixpoint replaceAll (a b : ascii) (s : string) : string :=
  match s with
  | EmptyString => EmptyString
  | String c rest =>
      String (if Ascii.eqb c a then b else c) (replaceAll a b rest)
  end.

(** [s.split(sep)[0]]: the characters before the first [sep], the whole
    string when [sep] does not occur. *)
Fixpoint splitHead (sep : ascii) (s : string) : string :=
  match s with
  | EmptyString => EmptyString
  | String c rest =>
      if Ascii.eqb c sep then EmptyString else String c (splitHead sep rest)
  end.

Definition lowerChar (c : ascii) : ascii :=
  let n := nat_of_ascii c in
  if Nat.leb 65 n && Nat.leb n 90 then ascii_of_nat (n + 32) else c.

(** [s.toLowerCase()] on ASCII strings, the locale tags; characters
    outside A-Z are left as they are, which is not what JavaScript does
    to letters outside ASCII. *)
Fixpoint toLowerCase (s : string) : string :=
  match s with
  | EmptyString => EmptyString
  | String c rest => String (lowerChar c) (toLowerCase rest)
  end.

(** The names every plain object inherits from [Object.prototype]. The
    [in] operator and a property read [obj[key]] both look through the
    prototype chain, so they see these names on [supportedLanguages]
    and on [baseLanguageToFullCode]. *)
Definition objectPrototypeKeys : list string :=
  [ "constructor"; "__defineGetter__"; "__defineSetter__";
    "hasOwnProperty"; "__lookupGetter__"; "__lookupSetter__";
    "isPrototypeOf"; "propertyIsEnumerable"; "toString"; "valueOf";
    "__proto__"; "toLocaleString" ].

Definition includes (l : list string) (x : string) : bool :=
  existsb (String.eqb x) l.

(** What a property read can give back: a string stored by the program,
    or the function or object inherited under one of the names above. *)
Inductive value : Type :=
| Str (s : string)
| Inherited (name : string).

(** Truthiness as tested by [if (v)] and [!v]: [undefined], [null] and
    the empty string are falsy. *)
Definition truthyString (o : option string) : bool :=
  match o with
  | Some s => negb (String.eqb s "")
  | None => false
  end.

Definition truthy (o : option value) : bool :=
  match o with
  | Some (Str s) => negb (String.eqb s "")
  | Some (Inherited _) => true
  | None => false
  end.

(** [obj[key]] on a plain object whose own properties are [m]. *)
Definition get (m : gmap string string) (key : string) : option value :=
  match m !! key with
  | Some s => Some (Str s)
  | None =>
      if includes objectPrototypeKeys key then Some (Inherited key) else None
  end.

(** [key in obj] on a plain object whose own keys are [keys]. *)
Definition has (keys : list string) (key : string) : bool :=
  includes keys key || includes objectPrototypeKeys key.

(** [Array.from(new Set(l))]: the elements of [l] without repetitions,
    each at the place of its first occurrence. *)
Definition setAdd (acc : list string) (x : string) : list string :=
  if includes acc x then acc else acc ++ [x].

Definition arrayFromSet (l : list string) : list string :=
  fold_left setAdd l [].

End Js.

(** ** The locale catalog *)

Definition supportedLanguages : list (string * string) :=
  [ ("en-GB", "English");
    ("ar-AR", "العربية");
    ("az-AZ", "Azərbaycan Dili");
    ("bg-BG", "Български");
    ("ca-CA", "Català");
    ("cs-CZ", "Česky");
    ("da-DK", "Dansk");
    ("de-DE", "Deutsch");
    ("el-GR", "Ελληνικά");
    ("es-ES", "Español");
    ("eu-ES", "Euskara");
    ("fa-IR", "فارسی");
    ("fr-FR", "Français");
    ("ga-IE", "Gaeilge");
    ("hi-IN", "हिंदी");
    ("hr-HR", "Hrvatski");
    ("hu-HU", "Magyar");
    ("id-ID", "Bahasa Indonesia");
    ("it-IT", "Italiano");
    ("ja-JP", "日本語");
    ("ko-KR", "한국어");
    ("ml-ML", "മലയാളം");
    ("nl-NL", "Nederlands");
    ("no-NB", "Norsk");
    ("pl-PL", "Polski");
    ("pt-BR", "Português (Brasil)");
    ("pt-PT", "Português");
    ("ro-RO", "Română");
    ("ru-RU", "Русский");
    ("sk-SK", "Slovensky");
    ("sl-SI", "Slovenščina");
    ("sr-LATN-RS", "Srpski");
    ("sv-SE", "Svenska");
    ("th-TH", "ไทย");
    ("tr-TR", "Türkçe");
    ("uk-UA", "Українська");
    ("vi-VN", "Tiếng Việt");
    ("zh-BO", "བོད་ཡིག");
    ("zh-CN", "简体中文");
    ("zh-TW", "繁體中文") ].

(** [Object.keys(supportedLanguages)]: the codes in insertion order (no
    key of the catalog is an array index, so none is moved to the front). *)
Definition catalogCodes : list string := map fst supportedLanguages.

Definition rtlLanguages : list string := ["ar-AR"; "fa-IR"].

(** ** The base-language index and the normalizer *)

Section Catalog.

(** The own keys of the catalog object, in [Object.keys] order. *)
Variable codes : list string.

Definition baseLangOf (code : string) : string :=
  Js.toLowerCase (Js.splitHead "-" code).

(** One turn of the loop that fills [baseLanguageToFullCode]. *)
Definition indexStep (m : gmap string string) (code : string)
  : gmap string string :=
  let baseLang := baseLangOf code in
  if negb (Js.truthy (Js.get m baseLang)) then <[baseLang := code]> m else m.

(** The loop over [Object.keys(supportedLanguages)], then the pinned
    assignment [baseLanguageToFullCode['en'] = 'en-GB']. *)
Definition baseLanguageIndex : gmap string string :=
  <["en" := "en-GB"]> (fold_left indexStep codes ∅).

Definition normalizeLocaleIn (locale : string) : Js.value :=
  let normalized := Js.replaceAll "_" "-" locale in
  if Js.has codes normalized then Js.Str normalized
  else
    let baseLang := Js.toLowerCase (Js.splitHead "-" normalized) in
    let mappedLang := Js.get baseLanguageIndex baseLang in
    if Js.truthy mappedLang then
      match mappedLang with
      | Some v => v
      | None => Js.Str normalized
      end
    else Js.Str normalized.

(** The detector option [convertDetectedLanguage]. *)
Definition convertDetectedLanguageIn (lng : string) : Js.value :=
  if Js.has codes lng then Js.Str lng
  else
    let baseLang := Js.toLowerCase (Js.splitHead "-" lng) in
    let mappedLang := Js.get baseLanguageIndex baseLang in
    if Js.truthy mappedLang then
      match mappedLang with
      | Some v => v
      | None => Js.Str lng
      end
    else Js.Str lng.

End Catalog.

Definition baseLanguageToFullCode : gmap string string :=
  baseLanguageIndex catalogCodes.

Definition normalizeLocale (locale : string) : Js.value :=
  normalizeLocaleIn catalogCodes locale.

Definition convertDetectedLanguage (lng : string) : Js.value :=
  convertDetectedLanguageIn catalogCodes lng.

(** ** The process-wide state *)

(** [i18n.options.supportedLngs], [i18n.language], the browser's
    [localStorage], and the [dir] and [lang] attributes of
    [document.documentElement]. *)
Record World : Type := mkWorld {
  supportedLngs : list string;
  language : option string;
  localStorage : gmap string string;
  documentDir : string;
  documentLang : string
}.

(** The state the options of [i18n.init] describe: [supportedLngs] is
    [Object.keys(supportedLanguages)]; the detected language, the stored
    items and the document attributes are the environment's. *)
Definition initWorld (lng : option string) (storage : gmap string string)
    (dir lang : string) : World :=
  mkWorld catalogCodes lng storage dir lang.

(** The listener registered with [i18n.on('languageChanged', ...)]. *)
Definition onLanguageChanged (lng : string) (w : World) : World :=
  let isRTL := Js.includes rtlLanguages lng in
  mkWorld (supportedLngs w) (language w) (localStorage w)
          (if isRTL then "rtl" else "ltr") lng.

(** Modelled from the spec: [i18n.changeLanguage] belongs to the i18next
    library, which is not part of this repository. The specification has it
    set ActiveLocale to the requested code, after which the
    [languageChanged] listener above runs. *)
Definition changeLanguage (lng : string) (w : World) : World :=
  onLanguageChanged lng
    (mkWorld (supportedLngs w) (Some lng) (localStorage w)
             (documentDir w) (documentLang w)).

Definition getItem (key : string) (w : World) : option string :=
  localStorage w !! key.

(** ** The two exported operations *)

(** The first two statements of [updateSupportedLanguages] past its guard:
    the fallback joined to the requested codes, then the filter. *)
Definition validLanguagesOf (configLanguages : list string) : list string :=
  let languagesToSupport := Js.arrayFromSet ("en-GB" :: configLanguages) in
  List.filter (fun lang => Js.has catalogCodes lang) languagesToSupport.

Definition updateSupportedLanguages (configLanguages : option (list string))
    (w : World) : World :=
  match configLanguages with
  | None => w
  | Some cfg =>
      if Nat.eqb (length cfg) 0 then w
      else
        let validLanguages := validLanguagesOf cfg in
        if Nat.ltb 0 (length validLanguages) then
          let w1 := mkWorld validLanguages (language w) (localStorage w)
                            (documentDir w) (documentLang w) in
          let currentLang := language w1 in
          if Js.truthyString currentLang
             && negb (match currentLang with
                      | Some l => Js.includes validLanguages l
                      | None => false
                      end)
          then changeLanguage "en-GB" w1
          else w1
        else w
  end.

Definition I18N_LANGUAGE_KEY : string := "i18nextLng".

Definition applyDefaultLocale (defaultLocale : option string) (w : World)
    : World :=
  if negb (Js.truthyString defaultLocale) then w
  else
    let userPreference := getItem I18N_LANGUAGE_KEY w in
    if Js.truthyString userPreference then w
    else
      match defaultLocale with
      | None => w
      | Some locale =>
          match normalizeLocale locale with
          | Js.Str normalizedLocale =>
              if Js.has catalogCodes normalizedLocale
              then changeLanguage normalizedLocale w
              else w
          | Js.Inherited _ =>
              (* the key of a function or object is its printed form,
                 which names no property *)
              w
          end
      end.

(** ** The configuration watcher (AppConfigLoader) *)

Record AppConfig : Type := mkAppConfig {
  languages : option (list string);
  defaultLocale : option string
}.

(** The body of the effect, run when [config] or [loading] changes. *)
Definition appConfigEffect (config : option AppConfig) (loading : bool)
    (w : World) : World :=
  match config with
  | Some cfg =>
      if negb loading
      then applyDefaultLocale (defaultLocale cfg)
             (updateSupportedLanguages (languages cfg) w)
      else w
  | None => w
  end.

(** A call of one of the two exported operations. *)
Inductive call : Type :=
| Restrict (configLanguages : option (list string))
| ApplyDefault (defaultLocale : option string).

Definition perform (w : World) (c : call) : World :=
  match c with
  | Restrict cfg => updateSupportedLanguages cfg w
  | ApplyDefault d => applyDefaultLocale d w
  end.

Definition run (calls : list call) (w : World) : World :=
  fold_left perform calls w.

(** ** The load path of the translation backend *)

(** [s.endsWith(c)] for a one-character [c]. *)
Fixpoint endsWith (s : string) (c : ascii) : bool :=
  match s with
  | EmptyString => false
  | String a EmptyString => Ascii.eqb a c
  | String _ rest => endsWith rest c
  end.

(** [s.slice(0, -1)]: [s] without its last character. *)
Fixpoint sliceInit (s : string) : string :=
  match s with
  | EmptyString => EmptyString
  | String _ EmptyString => EmptyString
  | String a rest => String a (sliceInit rest)
  end.

(** What a template literal prints for an array element that may be
    missing. *)
Definition templateText (o : option string) : string :=
  match o with
  | Some s => s
  | None => "undefined"
  end.

(** The [loadPath] option; [BASE_URL] is [import.meta.env.BASE_URL]. *)
Definition loadPath (BASE_URL : option string) (lngs namespaces : list string)
    : string :=
  let lng := head lngs in
  let basePath :=
    match BASE_URL with
    | Some b => if Js.truthyString BASE_URL then b else "/"
    | None => "/"
    end in
  let cleanBasePath :=
    if endsWith basePath "/" then sliceInit basePath else basePath in
  String.append cleanBasePath
    (String.append "/locales/"
       (String.append (templateText lng)
          (String.append "/"
             (String.append (templateText (head namespaces)) ".toml")))).

(** ** Predicates and sample states used in the statements *)

(** A bare tag has no separator, neither hyphen nor underscore. *)
Fixpoint bareTag (s : string) : bool :=
  match s with
  | EmptyString => true
  | String c rest =>
      negb (Ascii.eqb c "-") && negb (Ascii.eqb c "_") && bareTag rest
  end.

Fixpoint noUnderscore (s : string) : bool :=
  match s with
  | EmptyString => true
  | String c rest => negb (Ascii.eqb c "_") && noUnderscore rest
  end.

(** The first code, in catalog order, whose base language is [b]. *)
Definition firstWithBase (codes : list string) (b : string) : option string :=
  find (fun code => String.eqb (baseLangOf code) b) codes.

(** The supported set is not empty and has the fallback in it. *)
Definition supportedSetOk (w : World) : Prop :=
  supportedLngs w <> [] /\ In "en-GB" (supportedLngs w).

(** The initial state with [lng] as the detected language, nothing stored
    and a left-to-right document. *)
Definition freshWorld (lng : string) : World :=
  initWorld (Some lng) ∅ "ltr" lng.

(** A store that holds [v] as the user's choice and nothing else. *)
Definition storedPreference (v : string) : gmap string string :=
  {[ I18N_LANGUAGE_KEY := v ]}.

(** The strings on which the model of [toLowerCase] is JavaScript's: those
    made of ASCII characters only. *)
Fixpoint isAscii (s : string) : bool :=
  match s with
  | EmptyString => true
  | String c rest => Nat.ltb (nat_of_ascii c) 128 && isAscii rest
  end.

(** The document agrees with the active locale: its language is the
    locale and its direction is the one the listener gives that locale. *)
Definition documentFollows (w : World) : Prop :=
  forall l, language w = Some l ->
            documentLang w = l /\
            documentDir w = (if Js.includes rtlLanguages l then "rtl" else "ltr").

(** ** Sample runs *)

Example normalize_zh : normalizeLocale "zh" = Js.Str "zh-BO".
Proof. vm_compute. reflexivity. Qed.

Example normalize_sr : normalizeLocale "sr_LATN_RS" = Js.Str "sr-LATN-RS".
Proof. vm_compute. reflexivity. Qed.

Example normalize_unknown : normalizeLocale "xx-YY" = Js.Str "xx-YY".
Proof. vm_compute. reflexivity. Qed.

Example normalize_inherited :
  normalizeLocale "Constructor" = Js.Inherited "constructor".
Proof. vm_compute. reflexivity. Qed.

Example restrict_de :
  supportedLngs
    (updateSupportedLanguages (Some ["de-DE"]) (initWorld (Some "ja-JP") ∅ "ltr" "ja-JP"))
  = ["en-GB"; "de-DE"].
Proof. vm_compute. reflexivity. Qed.

Example restrict_zz :
  supportedLngs
    (updateSupportedLanguages (Some ["zz-ZZ"]) (initWorld (Some "ja-JP") ∅ "ltr" "ja-JP"))
  = ["en-GB"].
Proof. vm_compute. reflexivity. Qed.

Example restrict_toString :
  supportedLngs
    (updateSupportedLanguages (Some ["de-DE"; "toString"]) (initWorld (Some "ja-JP") ∅ "ltr" "ja-JP"))
  = ["en-GB"; "de-DE"; "toString"].
Proof. vm_compute. reflexivity. Qed.

Example applyDefault_de :
  language (applyDefaultLocale (Some "de_DE") (initWorld (Some "en-GB") ∅ "ltr" "en-GB"))
  = Some "de-DE".
Proof. vm_compute. reflexivity. Qed.

(** ** Strings *)

Lemma replaceAll_bare (t : string) :
  bareTag t = true -> Js.replaceAll "_" "-" t = t.
Proof.
  induction t as [|c t IH]; cbn [bareTag Js.replaceAll]; [reflexivity|].
  intros H. apply andb_prop in H as [H Ht]. apply andb_prop in H as [_ Hu].
  apply negb_true_iff in Hu. rewrite Hu, (IH Ht). reflexivity.
Qed.

Lemma splitHead_bare (t : string) :
  bareTag t = true -> Js.splitHead "-" t = t.
Proof.
  induction t as [|c t IH]; cbn [bareTag Js.splitHead]; [reflexivity|].
  intros H. apply andb_prop in H as [H Ht]. apply andb_prop in H as [Hh _].
  apply negb_true_iff in Hh. rewrite Hh, (IH Ht). reflexivity.
Qed.

(** Turning the hyphens into underscores and back gives the code again,
    provided it had no underscore to begin with. *)
Lemma replaceAll_round_trip (c : string) :
  noUnderscore c = true ->
  Js.replaceAll "_" "-" (Js.replaceAll "-" "_" c) = c.
Proof.
  induction c as [|a c IH]; cbn [noUnderscore Js.replaceAll]; [reflexivity|].
  intros H. apply andb_prop in H as [Ha Hc]. apply negb_true_iff in Ha.
  rewrite (IH Hc). f_equal.
  destruct (Ascii.eqb a "-") eqn:E.
  - apply Ascii.eqb_eq in E. subst a. reflexivity.
  - rewrite Ha. reflexivity.
Qed.

Lemma replaceAll_noUnderscore (c : string) :
  noUnderscore c = true -> Js.replaceAll "_" "-" c = c.
Proof.
  induction c as [|a c IH]; cbn [noUnderscore Js.replaceAll]; [reflexivity|].
  intros H. apply andb_prop in H as [Ha Hc]. apply negb_true_iff in Ha.
  rewrite Ha, (IH Hc). reflexivity.
Qed.

(** ** Arrays and sets *)

Lemma includes_In (l : list string) (x : string) :
  Js.includes l x = true <-> In x l.
Proof.
  unfold Js.includes. rewrite existsb_exists. split.
  - intros (y & Hy & E). apply String.eqb_eq in E. subst y. exact Hy.
  - intros H. exists x. split; [exact H | apply String.eqb_refl].
Qed.

Lemma includes_not_In (l : list string) (x : string) :
  Js.includes l x = false <-> ~ In x l.
Proof.
  rewrite <- includes_In. destruct (Js.includes l x); split; intros H;
    solve [ discriminate | reflexivity | congruence | exfalso; apply H; reflexivity ].
Qed.

Lemma In_setAdd (acc : list string) (a x : string) :
  In x (Js.setAdd acc a) <-> In x acc \/ x = a.
Proof.
  unfold Js.setAdd. destruct (Js.includes acc a) eqn:E.
  - apply includes_In in E. split; [tauto|]. intros [H | ->]; assumption.
  - rewrite in_app_iff. cbn [In].
    split; [intros [H | [<- | []]] | intros [H | ->]]; auto.
Qed.

Lemma In_fold_setAdd (l acc : list string) (x : string) :
  In x (fold_left Js.setAdd l acc) <-> In x acc \/ In x l.
Proof.
  revert acc. induction l as [|a l IH]; intros acc; cbn [fold_left In].
  - tauto.
  - rewrite IH, In_setAdd. split; intros H.
    + destruct H as [[H | ->] | H]; auto.
    + destruct H as [H | [<- | H]]; auto.
Qed.

(** [new Set] keeps the order of first insertion: what is already in the
    set stays in front. *)
Lemma fold_setAdd_prefix (l acc : list string) :
  exists t, fold_left Js.setAdd l acc = acc ++ t /\ forall x, In x t -> In x l.
Proof.
  revert acc. induction l as [|a l IH]; intros acc; cbn [fold_left].
  - exists []. split; [symmetry; apply app_nil_r | intros x []].
  - destruct (IH (Js.setAdd acc a)) as (t & Ht & Hin).
    assert (Hs : Js.setAdd acc a
                 = if Js.includes acc a then acc else acc ++ [a]) by reflexivity.
    rewrite Hs in Ht |- *. clear Hs. destruct (Js.includes acc a).
    + exists t. split; [exact Ht|]. intros x Hx. right. apply Hin, Hx.
    + exists (a :: t). split.
      * rewrite Ht, <- app_assoc. reflexivity.
      * intros x [<- | Hx]; [left; reflexivity | right; apply Hin, Hx].
Qed.

Lemma NoDup_fold_setAdd (l acc : list string) :
  List.NoDup acc -> List.NoDup (fold_left Js.setAdd l acc).
Proof.
  revert acc. induction l as [|a l IH]; intros acc Hacc; cbn [fold_left].
  - exact Hacc.
  - apply IH. unfold Js.setAdd. destruct (Js.includes acc a) eqn:E; [exact Hacc|].
    apply includes_not_In in E. apply List.NoDup_app.
    + exact Hacc.
    + constructor; [intros [] | constructor].
    + intros x Hx [<- | []]. apply E, Hx.
Qed.

(** ** The base-language index *)

Lemma indexStep_lookup (m : gmap string string) (code b : string) :
  (forall v, m !! b = Some v -> v <> "") ->
  Js.includes Js.objectPrototypeKeys b = false ->
  indexStep m code !! b =
    match m !! b with
    | Some v => Some v
    | None => if String.eqb (baseLangOf code) b then Some code else None
    end.
Proof.
  intros Hne Hproto. unfold indexStep.
  destruct (String.eqb_spec (baseLangOf code) b) as [-> | Hdiff].
  - unfold Js.get. destruct (m !! b) as [v|] eqn:Hb.
    + cbn [Js.truthy]. specialize (Hne v eq_refl).
      apply String.eqb_neq in Hne. rewrite Hne. cbn [negb]. exact Hb.
    + rewrite Hproto. cbn [Js.truthy negb]. apply lookup_insert_eq.
  - destruct (negb (Js.truthy (Js.get m (baseLangOf code)))).
    + rewrite lookup_insert_ne by exact Hdiff. destruct (m !! b); reflexivity.
    + destruct (m !! b); reflexivity.
Qed.

(** The loop keeps the first code of each base language. *)
Lemma fold_indexStep_lookup (codes : list string) :
  Forall (fun code => code <> "") codes ->
  forall (m : gmap string string) (b : string),
    (forall v, m !! b = Some v -> v <> "") ->
    Js.includes Js.objectPrototypeKeys b = false ->
    fold_left indexStep codes m !! b =
      match m !! b with
      | Some v => Some v
      | None => firstWithBase codes b
      end.
Proof.
  induction 1 as [|code codes Hcode _ IH]; intros m b Hne Hproto;
    cbn [fold_left firstWithBase find].
  - destruct (m !! b); reflexivity.
  - pose proof (indexStep_lookup m code b Hne Hproto) as Hstep.
    rewrite IH; [| | exact Hproto].
    + rewrite Hstep. destruct (m !! b); [reflexivity|].
      destruct (String.eqb (baseLangOf code) b); reflexivity.
    + intros v. rewrite Hstep. destruct (m !! b) as [v'|] eqn:Hb.
      * intros [= <-]. apply Hne. reflexivity.
      * destruct (String.eqb (baseLangOf code) b); [|discriminate].
        intros [= <-]. exact Hcode.
Qed.

Lemma baseLanguageIndex_en (codes : list string) :
  baseLanguageIndex codes !! "en" = Some "en-GB".
Proof. unfold baseLanguageIndex. apply lookup_insert_eq. Qed.

Lemma baseLanguageIndex_lookup (codes : list string) (b : string) :
  Forall (fun code => code <> "") codes ->
  Js.includes Js.objectPrototypeKeys b = false ->
  baseLanguageIndex codes !! b =
    if String.eqb b "en" then Some "en-GB" else firstWithBase codes b.
Proof.
  intros Hcodes Hproto. destruct (String.eqb_spec b "en") as [-> | Hdiff].
  - apply baseLanguageIndex_en.
  - unfold baseLanguageIndex. rewrite lookup_insert_ne by congruence.
    rewrite (fold_indexStep_lookup codes Hcodes ∅ b); [| | exact Hproto].
    + rewrite lookup_empty. reflexivity.
    + intros v. rewrite lookup_empty. discriminate.
Qed.

(** ** Facts about the catalog, by evaluation *)

Lemma forallb_In {A : Type} (p : A -> bool) (l : list A) (x : A) :
  forallb p l = true -> In x l -> p x = true.
Proof. intros H Hx. rewrite forallb_forall in H. apply H, Hx. Qed.

Lemma catalog_codes_nonempty : Forall (fun code => code <> "") catalogCodes.
Proof.
  apply List.Forall_forall. intros c Hc.
  assert (H : forallb (fun code => negb (String.eqb code "")) catalogCodes = true)
    by (vm_compute; reflexivity).
  apply (forallb_In _ _ c H) in Hc. apply negb_true_iff, String.eqb_neq in Hc.
  exact Hc.
Qed.

Lemma catalog_codes_noUnderscore (c : string) :
  In c catalogCodes -> noUnderscore c = true.
Proof.
  apply (forallb_In noUnderscore). vm_compute. reflexivity.
Qed.

Lemma catalog_codes_not_bare (c : string) :
  In c catalogCodes -> bareTag c = false.
Proof.
  intros Hc. apply negb_true_iff. revert Hc.
  apply (forallb_In (fun code => negb (bareTag code))). vm_compute. reflexivity.
Qed.

(** Every catalog code has a hyphen, so a bare tag is never one of them. *)
Lemma bare_tag_not_catalog_code (t : string) :
  bareTag t = true -> ~ In t catalogCodes.
Proof.
  intros Hbare Hin. apply catalog_codes_not_bare in Hin. congruence.
Qed.

Lemma catalog_base_not_inherited (c : string) :
  In c catalogCodes ->
  Js.includes Js.objectPrototypeKeys (baseLangOf c) = false.
Proof.
  intros Hc. apply negb_true_iff. revert Hc.
  apply (forallb_In
           (fun code => negb (Js.includes Js.objectPrototypeKeys (baseLangOf code)))).
  vm_compute. reflexivity.
Qed.

(** No inherited name lowercases to the base language of a catalog code. *)
Lemma inherited_lower_not_catalog_base (k c : string) :
  In k Js.objectPrototypeKeys -> In c catalogCodes ->
  Js.toLowerCase k <> baseLangOf c.
Proof.
  intros Hk Hc.
  assert (H : forallb (fun k' =>
                forallb (fun c' => negb (String.eqb (Js.toLowerCase k') (baseLangOf c')))
                        catalogCodes)
              Js.objectPrototypeKeys = true) by (vm_compute; reflexivity).
  apply (forallb_In _ _ k H) in Hk. apply (forallb_In _ _ c Hk) in Hc.
  apply negb_true_iff, String.eqb_neq in Hc. exact Hc.
Qed.

Lemma inherited_lower_not_en (k : string) :
  In k Js.objectPrototypeKeys -> Js.toLowerCase k <> "en".
Proof.
  intros Hk.
  assert (H : forallb (fun k' => negb (String.eqb (Js.toLowerCase k') "en"))
                      Js.objectPrototypeKeys = true) by (vm_compute; reflexivity).
  apply (forallb_In _ _ k H) in Hk. apply negb_true_iff, String.eqb_neq in Hk.
  exact Hk.
Qed.

Lemma has_fallback : Js.has catalogCodes "en-GB" = true.
Proof. vm_compute. reflexivity. Qed.

Lemma has_catalog_code (codes : list string) (c : string) :
  In c codes -> Js.has codes c = true.
Proof.
  intros Hc. unfold Js.has. apply orb_true_iff. left. apply includes_In, Hc.
Qed.

(** ** The normalizer *)

(** A code of the catalog is returned as it is, and so is its underscore
    form, whatever the catalog, as long as the code has no underscore. *)
Lemma normalizeLocaleIn_catalog_code (codes : list string) (c : string) :
  In c codes -> noUnderscore c = true ->
  normalizeLocaleIn codes c = Js.Str c /\
  normalizeLocaleIn codes (Js.replaceAll "-" "_" c) = Js.Str c.
Proof.
  intros Hc Hu. unfold normalizeLocaleIn.
  rewrite (replaceAll_round_trip c Hu), (replaceAll_noUnderscore c Hu).
  rewrite (has_catalog_code codes c Hc). split; reflexivity.
Qed.

(** The path of a bare tag through [normalizeLocale]: no replacement, no
    split, only the lowercasing and the index. *)
Lemma normalizeLocaleIn_bare (codes : list string) (t mapped : string) :
  bareTag t = true ->
  Js.has codes t = false ->
  baseLanguageIndex codes !! Js.toLowerCase t = Some mapped ->
  mapped <> "" ->
  normalizeLocaleIn codes t = Js.Str mapped.
Proof.
  intros Hbare Hhas Hidx Hne. unfold normalizeLocaleIn.
  rewrite (replaceAll_bare t Hbare), Hhas, (splitHead_bare t Hbare).
  unfold Js.get. rewrite Hidx. cbn [Js.truthy].
  apply String.eqb_neq in Hne. rewrite Hne. reflexivity.
Qed.

(** C7: every catalog code is a fixed point of [normalizeLocale], and the
    underscore form of a catalog code (each hyphen turned into an
    underscore, as in sr_LATN_RS) normalizes to the code. *)
Theorem normalizeLocale_catalog_fixed_point (c : string) :
  In c catalogCodes ->
  normalizeLocale c = Js.Str c /\
  normalizeLocale (Js.replaceAll "-" "_" c) = Js.Str c.
Proof.
  intros Hc. apply normalizeLocaleIn_catalog_code;
    [exact Hc | apply catalog_codes_noUnderscore, Hc].
Qed.

Lemma normalizeLocale_catalog_fixed_point_sr :
  In "sr-LATN-RS" catalogCodes /\
  normalizeLocale "sr-LATN-RS" = Js.Str "sr-LATN-RS" /\
  normalizeLocale "sr_LATN_RS" = Js.Str "sr-LATN-RS".
Proof.
  assert (H : In "sr-LATN-RS" catalogCodes) by (vm_compute; tauto).
  split; [exact H|].
  exact (normalizeLocale_catalog_fixed_point "sr-LATN-RS" H).
Defined.

(** C8: a bare base-language tag goes to the first catalog code, in
    catalog order, whose base language is the lowercased tag, except that a
    tag lowercasing to en goes to en-GB; the latter holds for every
    catalog, in any order, that does not have the tag itself as a code. In
    particular es, de and pt go to es-ES, de-DE and pt-BR, the first
    Portuguese entry. *)
Theorem normalizeLocale_bare_tag :
  (forall t c : string,
      bareTag t = true ->
      ~ In t catalogCodes ->
      firstWithBase catalogCodes (Js.toLowerCase t) = Some c ->
      normalizeLocale t
      = Js.Str (if String.eqb (Js.toLowerCase t) "en" then "en-GB" else c)) /\
  (forall (codes : list string) (t : string),
      bareTag t = true ->
      ~ In t codes ->
      Js.toLowerCase t = "en" ->
      normalizeLocaleIn codes t = Js.Str "en-GB") /\
  normalizeLocale "es" = Js.Str "es-ES" /\
  normalizeLocale "de" = Js.Str "de-DE" /\
  normalizeLocale "pt" = Js.Str "pt-BR" /\
  firstWithBase catalogCodes "pt" = Some "pt-BR".
Proof.
  split; [|split].
  - intros t c Hbare Hnot Hfirst.
    pose proof Hfirst as Hfound. unfold firstWithBase in Hfound.
    apply find_some in Hfound as [Hc Hbase]. apply String.eqb_eq in Hbase.
    assert (Hproto : Js.includes Js.objectPrototypeKeys (Js.toLowerCase t) = false).
    { rewrite <- Hbase. apply catalog_base_not_inherited, Hc. }
    apply normalizeLocaleIn_bare.
    + exact Hbare.
    + unfold Js.has. apply orb_false_iff. split; apply includes_not_In.
      * exact Hnot.
      * intros Hk. apply (inherited_lower_not_catalog_base t c Hk Hc).
        symmetry. exact Hbase.
    + rewrite (baseLanguageIndex_lookup _ _ catalog_codes_nonempty Hproto).
      rewrite Hfirst. destruct (String.eqb (Js.toLowerCase t) "en"); reflexivity.
    + destruct (String.eqb (Js.toLowerCase t) "en"); [discriminate|].
      pose proof catalog_codes_nonempty as Hall.
      rewrite List.Forall_forall in Hall. apply Hall, Hc.
  - intros codes t Hbare Hnot Hen. apply normalizeLocaleIn_bare.
    + exact Hbare.
    + unfold Js.has. apply orb_false_iff. split; apply includes_not_In.
      * exact Hnot.
      * intros Hk. apply (inherited_lower_not_en t Hk Hen).
    + rewrite Hen. apply baseLanguageIndex_en.
    + discriminate.
  - repeat split; vm_compute; reflexivity.
Qed.

Lemma normalizeLocale_bare_tag_upper :
  bareTag "PT" = true /\
  ~ In "PT" catalogCodes /\
  firstWithBase catalogCodes (Js.toLowerCase "PT") = Some "pt-BR" /\
  normalizeLocale "PT" = Js.Str "pt-BR" /\
  bareTag "EN" = true /\
  ~ In "EN" ["en-US"; "en-GB"] /\
  Js.toLowerCase "EN" = "en" /\
  normalizeLocaleIn ["en-US"; "en-GB"] "EN" = Js.Str "en-GB".
Proof.
  assert (H1 : bareTag "PT" = true) by reflexivity.
  assert (H2 : ~ In "PT" catalogCodes)
    by (apply includes_not_In; vm_compute; reflexivity).
  assert (H3 : firstWithBase catalogCodes (Js.toLowerCase "PT") = Some "pt-BR")
    by (vm_compute; reflexivity).
  assert (H4 : bareTag "EN" = true) by reflexivity.
  assert (H5 : ~ In "EN" ["en-US"; "en-GB"])
    by (apply includes_not_In; vm_compute; reflexivity).
  assert (H6 : Js.toLowerCase "EN" = "en") by reflexivity.
  split; [exact H1|]. split; [exact H2|]. split; [exact H3|].
  split; [exact (proj1 normalizeLocale_bare_tag "PT" "pt-BR" H1 H2 H3)|].
  split; [exact H4|]. split; [exact H5|]. split; [exact H6|].
  exact (proj1 (proj2 normalizeLocale_bare_tag) ["en-US"; "en-GB"] "EN" H4 H5 H6).
Defined.

(** C10: the bare tag zh goes to zh-BO, the Tibetan entry, because the
    catalog lists it before zh-CN and zh-TW; the detector's
    [convertDetectedLanguage] does the same. *)
Theorem normalizeLocale_zh :
  normalizeLocale "zh" = Js.Str "zh-BO" /\
  convertDetectedLanguage "zh" = Js.Str "zh-BO" /\
  firstWithBase catalogCodes "zh" = Some "zh-BO" /\
  List.filter (fun code => String.eqb (baseLangOf code) "zh") catalogCodes
  = ["zh-BO"; "zh-CN"; "zh-TW"].
Proof. repeat split; vm_compute; reflexivity. Qed.

(** ** The supported-set manager *)

(** The fallback is first among the valid languages; the others are
    requested codes that passed the filter. *)
Lemma validLanguagesOf_head (cfg : list string) :
  exists t, validLanguagesOf cfg = "en-GB" :: t /\
            forall x, In x t -> In x cfg /\ Js.has catalogCodes x = true.
Proof.
  unfold validLanguagesOf, Js.arrayFromSet. cbn [fold_left].
  change (Js.setAdd [] "en-GB") with ["en-GB"].
  destruct (fold_setAdd_prefix cfg ["en-GB"]) as (t & Ht & Hin).
  rewrite Ht. cbn [app List.filter]. rewrite has_fallback.
  exists (List.filter (fun lang => Js.has catalogCodes lang) t).
  split; [reflexivity|]. intros x Hx. apply filter_In in Hx as [Hx Hh].
  split; [apply Hin, Hx | exact Hh].
Qed.

Lemma In_validLanguagesOf (cfg : list string) (x : string) :
  In x (validLanguagesOf cfg) <->
  (x = "en-GB" \/ In x cfg) /\ Js.has catalogCodes x = true.
Proof.
  unfold validLanguagesOf, Js.arrayFromSet.
  rewrite filter_In, In_fold_setAdd. cbn [In].
  split; intros [H Hh]; (split; [|exact Hh]).
  - destruct H as [[] | [<- | H]]; [left; reflexivity | right; exact H].
  - destruct H as [-> | H]; right; [left; reflexivity | right; exact H].
Qed.

Lemma NoDup_validLanguagesOf (cfg : list string) :
  List.NoDup (validLanguagesOf cfg).
Proof.
  unfold validLanguagesOf, Js.arrayFromSet. apply List.NoDup_filter.
  apply NoDup_fold_setAdd. constructor.
Qed.

(** What a call with a non-empty list does: the guard on the length of
    [validLanguages] never fails, since the fallback is always there. *)
Lemma updateSupportedLanguages_restrict (cfg : list string) (w : World) :
  cfg <> [] ->
  updateSupportedLanguages (Some cfg) w =
    let w1 := mkWorld (validLanguagesOf cfg) (language w) (localStorage w)
                      (documentDir w) (documentLang w) in
    if Js.truthyString (language w)
       && negb (match language w with
                | Some l => Js.includes (validLanguagesOf cfg) l
                | None => false
                end)
    then changeLanguage "en-GB" w1
    else w1.
Proof.
  intros Hcfg. unfold updateSupportedLanguages.
  destruct cfg as [|c cfg]; [contradiction|]. cbn [length Nat.eqb].
  destruct (validLanguagesOf_head (c :: cfg)) as (t & Ht & _).
  replace (Nat.ltb 0 (length (validLanguagesOf (c :: cfg)))) with true
    by (rewrite Ht; reflexivity).
  reflexivity.
Qed.

Lemma supportedLngs_restrict (cfg : list string) (w : World) :
  cfg <> [] ->
  supportedLngs (updateSupportedLanguages (Some cfg) w) = validLanguagesOf cfg.
Proof.
  intros Hcfg. rewrite (updateSupportedLanguages_restrict cfg w Hcfg). cbv zeta.
  destruct (Js.truthyString (language w) && _); reflexivity.
Qed.

Lemma localStorage_restrict (arg : option (list string)) (w : World) :
  localStorage (updateSupportedLanguages arg w) = localStorage w.
Proof.
  destruct arg as [cfg|]; [|reflexivity].
  destruct cfg as [|c cfg]; [reflexivity|].
  rewrite updateSupportedLanguages_restrict by discriminate. cbv zeta.
  destruct (Js.truthyString (language w) && _); reflexivity.
Qed.

(** Without inherited names among the requested codes, the new supported
    set is the requested codes and the fallback, cut down to the catalog,
    each code once. *)
Lemma restrict_supported_set (cfg : list string) (w : World) :
  cfg <> [] ->
  (forall c, In c cfg -> ~ In c Js.objectPrototypeKeys) ->
  List.NoDup (supportedLngs (updateSupportedLanguages (Some cfg) w)) /\
  forall x,
    In x (supportedLngs (updateSupportedLanguages (Some cfg) w)) <->
    (x = "en-GB" \/ In x cfg) /\ In x catalogCodes.
Proof.
  intros Hcfg Hclean. rewrite (supportedLngs_restrict cfg w Hcfg).
  split; [apply NoDup_validLanguagesOf|]. intros x.
  rewrite In_validLanguagesOf. unfold Js.has. rewrite orb_true_iff.
  rewrite !includes_In. split; intros [Hx Hc]; (split; [exact Hx|]).
  - destruct Hc as [Hc | Hk]; [exact Hc|]. exfalso.
    destruct Hx as [-> | Hx]; [|exact (Hclean x Hx Hk)].
    revert Hk. apply includes_not_In. vm_compute. reflexivity.
  - left. exact Hc.
Qed.

(** C1, as the code has it: when the list is not empty and the filter
    rejects every code of it (none is a catalog code, none a name inherited
    from [Object.prototype]), the supported set becomes the fallback alone,
    whatever it was before; so it is what it was before only when it was
    the fallback alone already. *)
Theorem restrict_all_invalid_yields_fallback (cfg : list string) (w : World) :
  cfg <> [] ->
  Forall (fun c => ~ In c catalogCodes /\ ~ In c Js.objectPrototypeKeys) cfg ->
  supportedLngs (updateSupportedLanguages (Some cfg) w) = ["en-GB"] /\
  (supportedLngs (updateSupportedLanguages (Some cfg) w) = supportedLngs w <->
   supportedLngs w = ["en-GB"]).
Proof.
  intros Hcfg Hbad.
  assert (Hnew : supportedLngs (updateSupportedLanguages (Some cfg) w) = ["en-GB"]);
    [|split; [exact Hnew | rewrite Hnew; split; intros H; congruence]].
  rewrite (supportedLngs_restrict cfg w Hcfg).
  destruct (validLanguagesOf_head cfg) as (t & Ht & Hin). rewrite Ht.
  destruct t as [|x t]; [reflexivity|]. exfalso.
  destruct (Hin x (or_introl eq_refl)) as [Hx Hh].
  rewrite List.Forall_forall in Hbad. destruct (Hbad x Hx) as [Hc Hk].
  unfold Js.has in Hh. apply orb_true_iff in Hh.
  destruct Hh as [Hh | Hh]; apply includes_In in Hh; tauto.
Qed.

Lemma restrict_all_invalid_yields_fallback_zz :
  supportedLngs (updateSupportedLanguages (Some ["zz-ZZ"]) (freshWorld "ja-JP"))
  = ["en-GB"] /\
  (supportedLngs (updateSupportedLanguages (Some ["zz-ZZ"]) (freshWorld "ja-JP"))
   = supportedLngs (freshWorld "ja-JP") <->
   supportedLngs (freshWorld "ja-JP") = ["en-GB"]).
Proof.
  apply (restrict_all_invalid_yields_fallback ["zz-ZZ"] (freshWorld "ja-JP")).
  - discriminate.
  - constructor; [|constructor].
    split; apply includes_not_In; vm_compute; reflexivity.
Defined.

(** C1, as the specification has it, fails: zz-ZZ is no catalog code, yet
    the call replaces the full catalog by the fallback alone. *)
Lemma restrict_all_invalid_changes_supported_set :
  Forall (fun c => ~ In c catalogCodes) ["zz-ZZ"] /\
  supportedLngs (freshWorld "en-GB") = catalogCodes /\
  supportedLngs (updateSupportedLanguages (Some ["zz-ZZ"]) (freshWorld "en-GB"))
  = ["en-GB"] /\
  supportedLngs (updateSupportedLanguages (Some ["zz-ZZ"]) (freshWorld "en-GB"))
  <> supportedLngs (freshWorld "en-GB").
Proof.
  split; [|split; [|split]].
  - constructor; [|constructor]. apply includes_not_In. vm_compute. reflexivity.
  - reflexivity.
  - vm_compute. reflexivity.
  - vm_compute. discriminate.
Qed.

(** C2, as the code has it: a call with no list or an empty list changes
    nothing at all; so the supported set is the full catalog afterwards
    when it was the full catalog before. *)
Theorem restrict_absent_or_empty_unchanged
    (arg : option (list string)) (w : World) :
  arg = None \/ arg = Some [] ->
  updateSupportedLanguages arg w = w /\
  (supportedLngs w = catalogCodes ->
   supportedLngs (updateSupportedLanguages arg w) = catalogCodes).
Proof.
  intros [-> | ->]; (split; [reflexivity | intros H; exact H]).
Qed.

Lemma restrict_absent_or_empty_unchanged_fresh :
  updateSupportedLanguages (Some []) (freshWorld "en-GB") = freshWorld "en-GB" /\
  supportedLngs (updateSupportedLanguages None (freshWorld "en-GB")) = catalogCodes.
Proof.
  split.
  - apply (restrict_absent_or_empty_unchanged (Some []) (freshWorld "en-GB")).
    right. reflexivity.
  - apply (restrict_absent_or_empty_unchanged None (freshWorld "en-GB"));
      [left|]; reflexivity.
Defined.

(** C2, as the specification has it, fails: after a restriction to de-DE, a
    call with an empty list, or with none, leaves the restricted set in
    place instead of the full catalog. *)
Lemma restrict_empty_keeps_restriction :
  supportedLngs
    (updateSupportedLanguages (Some [])
       (updateSupportedLanguages (Some ["de-DE"]) (freshWorld "en-GB")))
  = ["en-GB"; "de-DE"] /\
  supportedLngs
    (updateSupportedLanguages None
       (updateSupportedLanguages (Some ["de-DE"]) (freshWorld "en-GB")))
  = ["en-GB"; "de-DE"] /\
  ["en-GB"; "de-DE"] <> catalogCodes.
Proof.
  split; [|split].
  - vm_compute. reflexivity.
  - vm_compute. reflexivity.
  - vm_compute. discriminate.
Qed.

(** C5 at a list with an inherited name: toString is no catalog code, but
    [in] finds it on every object, so the filter keeps it and it becomes
    a supported language. *)
Theorem restrict_keeps_inherited_name (w : World) :
  supportedLngs (updateSupportedLanguages (Some ["de-DE"; "toString"]) w)
  = ["en-GB"; "de-DE"; "toString"] /\
  In "de-DE" catalogCodes /\
  ~ In "toString" catalogCodes.
Proof.
  split; [|split].
  - rewrite supportedLngs_restrict by discriminate. vm_compute. reflexivity.
  - apply includes_In. vm_compute. reflexivity.
  - apply includes_not_In. vm_compute. reflexivity.
Qed.

(** C6: when a call replaces the supported set and the active locale is
    not in the new set, the active locale becomes en-GB, and the document
    follows. *)
Theorem restrict_forces_fallback (cfg : list string) (w : World) (l : string) :
  cfg <> [] ->
  language w = Some l ->
  l <> "" ->
  ~ In l (supportedLngs (updateSupportedLanguages (Some cfg) w)) ->
  language (updateSupportedLanguages (Some cfg) w) = Some "en-GB" /\
  documentLang (updateSupportedLanguages (Some cfg) w) = "en-GB" /\
  documentDir (updateSupportedLanguages (Some cfg) w) = "ltr".
Proof.
  intros Hcfg Hl Hne Hout.
  rewrite (supportedLngs_restrict cfg w Hcfg) in Hout.
  rewrite (updateSupportedLanguages_restrict cfg w Hcfg). cbv zeta.
  rewrite Hl. cbn [Js.truthyString].
  apply String.eqb_neq in Hne. apply includes_not_In in Hout.
  rewrite Hne, Hout. cbn [negb andb]. repeat split.
Qed.

Lemma restrict_forces_fallback_ja :
  language (updateSupportedLanguages (Some ["de-DE"]) (freshWorld "ja-JP"))
  = Some "en-GB".
Proof.
  apply (restrict_forces_fallback ["de-DE"] (freshWorld "ja-JP") "ja-JP").
  - discriminate.
  - reflexivity.
  - discriminate.
  - apply includes_not_In. vm_compute. reflexivity.
Defined.

Lemma supportedSetOk_init (lng : option string) (storage : gmap string string)
    (dir lang : string) :
  supportedSetOk (initWorld lng storage dir lang).
Proof.
  split; [discriminate|]. apply includes_In. vm_compute. reflexivity.
Qed.

Lemma supportedSetOk_restrict (arg : option (list string)) (w : World) :
  supportedSetOk w -> supportedSetOk (updateSupportedLanguages arg w).
Proof.
  intros Hw. destruct arg as [cfg|]; [|exact Hw].
  destruct cfg as [|c cfg]; [exact Hw|]. unfold supportedSetOk.
  rewrite supportedLngs_restrict by discriminate.
  destruct (validLanguagesOf_head (c :: cfg)) as (t & -> & _).
  split; [discriminate | left; reflexivity].
Qed.

Lemma supportedLngs_applyDefaultLocale (d : option string) (w : World) :
  supportedLngs (applyDefaultLocale d w) = supportedLngs w.
Proof.
  unfold applyDefaultLocale.
  destruct (negb (Js.truthyString d)); [reflexivity|].
  destruct (Js.truthyString (getItem I18N_LANGUAGE_KEY w)); [reflexivity|].
  destruct d as [locale|]; [|reflexivity].
  destruct (normalizeLocale locale) as [n|k]; [|reflexivity].
  destruct (Js.has catalogCodes n); reflexivity.
Qed.

(** C9: from the default supported set, every call of
    [updateSupportedLanguages], with any argument and with calls of
    [applyDefaultLocale] in between, leaves the supported set non-empty and
    with en-GB in it. *)
Theorem supported_set_invariant :
  (forall (arg : option (list string)) (w : World),
      supportedSetOk w -> supportedSetOk (updateSupportedLanguages arg w)) /\
  (forall (calls : list call) (lng : option string)
          (storage : gmap string string) (dir lang : string),
      supportedSetOk (run calls (initWorld lng storage dir lang))).
Proof.
  split; [exact supportedSetOk_restrict|].
  intros calls lng storage dir lang.
  pose proof (supportedSetOk_init lng storage dir lang) as Hinit.
  revert Hinit. generalize (initWorld lng storage dir lang).
  unfold run. induction calls as [|c calls IH]; intros w Hw; cbn [fold_left].
  - exact Hw.
  - apply IH. destruct c as [arg | d]; cbn [perform].
    + apply supportedSetOk_restrict, Hw.
    + unfold supportedSetOk. rewrite supportedLngs_applyDefaultLocale. exact Hw.
Qed.

Lemma supported_set_invariant_zz :
  supportedSetOk (updateSupportedLanguages (Some ["zz-ZZ"]) (freshWorld "ja-JP")).
Proof.
  apply (proj1 supported_set_invariant (Some ["zz-ZZ"]) (freshWorld "ja-JP")).
  split; [discriminate|]. apply includes_In. vm_compute. reflexivity.
Defined.

(** ** The default-locale applier *)

(** C4: with a non-empty value stored under i18nextLng, the call changes
    nothing, whatever its argument: no language change is made. *)
Theorem applyDefault_user_preference_noop
    (d : option string) (w : World) (v : string) :
  getItem I18N_LANGUAGE_KEY w = Some v ->
  v <> "" ->
  applyDefaultLocale d w = w.
Proof.
  intros Hv Hne. unfold applyDefaultLocale.
  destruct (negb (Js.truthyString d)); [reflexivity|].
  rewrite Hv. cbn [Js.truthyString].
  apply String.eqb_neq in Hne. rewrite Hne. reflexivity.
Qed.

Lemma applyDefault_user_preference_noop_fr :
  applyDefaultLocale (Some "de_DE")
    (initWorld (Some "fr-FR") (storedPreference "fr-FR") "ltr" "fr-FR")
  = initWorld (Some "fr-FR") (storedPreference "fr-FR") "ltr" "fr-FR".
Proof.
  apply (applyDefault_user_preference_noop (Some "de_DE")
           (initWorld (Some "fr-FR") (storedPreference "fr-FR") "ltr" "fr-FR")
           "fr-FR").
  - apply lookup_singleton_eq.
  - discriminate.
Defined.

(** C3: with nothing stored under i18nextLng, a default locale whose
    normalization is a catalog code becomes the active locale, whatever the
    supported set is, and the supported set stays as it was; so the active
    locale can be a code outside the supported set, as after the watcher
    applies a configuration that offers fr-FR and defaults to de_DE. *)
Theorem applyDefault_sets_catalog_code :
  (forall (w : World) (d c : string),
      getItem I18N_LANGUAGE_KEY w = None ->
      normalizeLocale d = Js.Str c ->
      In c catalogCodes ->
      language (applyDefaultLocale (Some d) w) = Some c /\
      supportedLngs (applyDefaultLocale (Some d) w) = supportedLngs w) /\
  (language
     (appConfigEffect (Some (mkAppConfig (Some ["fr-FR"]) (Some "de_DE"))) false
        (freshWorld "en-GB")) = Some "de-DE" /\
   supportedLngs
     (appConfigEffect (Some (mkAppConfig (Some ["fr-FR"]) (Some "de_DE"))) false
        (freshWorld "en-GB")) = ["en-GB"; "fr-FR"] /\
   ~ In "de-DE" ["en-GB"; "fr-FR"]).
Proof.
  split.
  - intros w d c Hnone Hnorm Hc.
    split; [|apply supportedLngs_applyDefaultLocale].
    unfold applyDefaultLocale.
    assert (Hd : Js.truthyString (Some d) = true).
    { cbn [Js.truthyString]. apply negb_true_iff, String.eqb_neq. intros ->.
      assert (Hempty : normalizeLocale "" = Js.Str "") by (vm_compute; reflexivity).
      rewrite Hempty in Hnorm. injection Hnorm as <-.
      pose proof catalog_codes_nonempty as Hall.
      rewrite List.Forall_forall in Hall. exact (Hall "" Hc eq_refl). }
    rewrite Hd, Hnone, Hnorm. cbn [negb Js.truthyString].
    rewrite (has_catalog_code catalogCodes c Hc). reflexivity.
  - split; [|split].
    + vm_compute. reflexivity.
    + vm_compute. reflexivity.
    + apply includes_not_In. vm_compute. reflexivity.
Qed.

Lemma applyDefault_sets_catalog_code_de :
  language
    (applyDefaultLocale (Some "de_DE")
       (updateSupportedLanguages (Some ["fr-FR"]) (freshWorld "en-GB")))
  = Some "de-DE" /\
  ~ In "de-DE"
      (supportedLngs
         (applyDefaultLocale (Some "de_DE")
            (updateSupportedLanguages (Some ["fr-FR"]) (freshWorld "en-GB")))).
Proof.
  assert (Hc : In "de-DE" catalogCodes) by (apply includes_In; vm_compute; reflexivity).
  destruct (proj1 applyDefault_sets_catalog_code
              (updateSupportedLanguages (Some ["fr-FR"]) (freshWorld "en-GB"))
              "de_DE" "de-DE") as [Hlang Hsup].
  - vm_compute. reflexivity.
  - vm_compute. reflexivity.
  - exact Hc.
  - split; [exact Hlang|]. rewrite Hsup.
    apply includes_not_In. vm_compute. reflexivity.
Defined.

(** * Further properties of the code *)

(** ** The index, for any catalog *)

Lemma fold_indexStep_sound (Q : string -> Prop) (codes : list string) :
  (forall c, In c codes -> Q c) ->
  forall m : gmap string string,
    (forall b c, m !! b = Some c -> baseLangOf c = b /\ Q c) ->
    forall b c, fold_left indexStep codes m !! b = Some c ->
                baseLangOf c = b /\ Q c.
Proof.
  induction codes as [|code codes IH]; intros HQ m Hm b c; cbn [fold_left].
  - apply Hm.
  - apply IH.
    + intros c' Hc'. apply HQ. right. exact Hc'.
    + clear b c. intros b c. unfold indexStep.
      destruct (negb (Js.truthy (Js.get m (baseLangOf code)))); [|apply Hm].
      destruct (String.eqb_spec (baseLangOf code) b) as [<- | Hdiff].
      * rewrite lookup_insert_eq. intros [= <-].
        split; [reflexivity | apply HQ; left; reflexivity].
      * rewrite lookup_insert_ne by exact Hdiff. apply Hm.
Qed.

Lemma baseLanguageIndex_entry (codes : list string) (b c : string) :
  baseLanguageIndex codes !! b = Some c ->
  baseLangOf c = b /\ (In c codes \/ c = "en-GB").
Proof.
  unfold baseLanguageIndex.
  destruct (String.eqb_spec "en" b) as [<- | Hdiff].
  - rewrite lookup_insert_eq. intros [= <-]. split; [reflexivity | right; reflexivity].
  - rewrite lookup_insert_ne by exact Hdiff.
    apply (fold_indexStep_sound (fun c => In c codes \/ c = "en-GB") codes).
    + intros c' Hc'. left. exact Hc'.
    + intros b' c'. rewrite lookup_empty. discriminate.
Qed.

(** The index never files a code under another language: whatever the
    catalog, an entry of [baseLanguageToFullCode] is a catalog code, or the
    pinned en-GB, and its key is the base language of that code. *)
Theorem baseLanguageIndex_sound (codes : list string) (b c : string) :
  baseLanguageIndex codes !! b = Some c ->
  baseLangOf c = b /\ (In c codes \/ c = "en-GB").
Proof. apply baseLanguageIndex_entry. Qed.

Lemma baseLanguageIndex_sound_pt :
  baseLangOf "pt-PT" = "pt" /\
  (In "pt-PT" ["pt-PT"; "pt-BR"; "en-US"] \/ "pt-PT" = "en-GB").
Proof.
  apply (baseLanguageIndex_sound ["pt-PT"; "pt-BR"; "en-US"] "pt" "pt-PT").
  vm_compute. reflexivity.
Defined.

(** ** The normalizer and the detector, further *)

Lemma replaceAll_has_noUnderscore (x : string) :
  noUnderscore (Js.replaceAll "_" "-" x) = true.
Proof.
  induction x as [|a x IH]; cbn [Js.replaceAll noUnderscore]; [reflexivity|].
  rewrite IH, andb_true_r. destruct (Ascii.eqb a "_") eqn:E; [reflexivity|].
  rewrite E. reflexivity.
Qed.

Lemma replaceAll_idempotent (x : string) :
  Js.replaceAll "_" "-" (Js.replaceAll "_" "-" x) = Js.replaceAll "_" "-" x.
Proof. apply replaceAll_noUnderscore, replaceAll_has_noUnderscore. Qed.

Lemma normalizeLocaleIn_replaced (codes : list string) (x : string) :
  normalizeLocaleIn codes (Js.replaceAll "_" "-" x) = normalizeLocaleIn codes x.
Proof. unfold normalizeLocaleIn. rewrite replaceAll_idempotent. reflexivity. Qed.

(** Where a string result of [normalizeLocale] comes from: the input with
    its underscores replaced, or the index. *)
Lemma normalizeLocaleIn_shape (codes : list string) (x s : string) :
  normalizeLocaleIn codes x = Js.Str s ->
  s = Js.replaceAll "_" "-" x \/
  baseLanguageIndex codes !! baseLangOf (Js.replaceAll "_" "-" x) = Some s.
Proof.
  unfold normalizeLocaleIn, baseLangOf.
  destruct (Js.has codes (Js.replaceAll "_" "-" x)).
  - intros [= <-]. left. reflexivity.
  - unfold Js.get.
    destruct (baseLanguageIndex codes
                !! Js.toLowerCase (Js.splitHead "-" (Js.replaceAll "_" "-" x)))
      as [v|].
    + cbn [Js.truthy]. destruct (negb (String.eqb v "")); intros [= <-];
        [right | left]; reflexivity.
    + destruct (Js.includes Js.objectPrototypeKeys _); cbn [Js.truthy].
      * discriminate.
      * intros [= <-]. left. reflexivity.
Qed.

Lemma fallback_in_catalog : In "en-GB" catalogCodes.
Proof. apply includes_In. vm_compute. reflexivity. Qed.

Lemma index_value_in_catalog (b c : string) :
  baseLanguageToFullCode !! b = Some c -> In c catalogCodes /\ baseLangOf c = b.
Proof.
  unfold baseLanguageToFullCode. intros H.
  destruct (baseLanguageIndex_entry catalogCodes b c H) as [Hb [Hc | ->]].
  - split; [exact Hc | exact Hb].
  - split; [exact fallback_in_catalog | exact Hb].
Qed.

(** Normalization never moves a tag to another language: whatever the
    catalog, a string result has the base language of the input (taken
    after the underscores are replaced). *)
Theorem normalizeLocaleIn_keeps_base (codes : list string) (x s : string) :
  normalizeLocaleIn codes x = Js.Str s ->
  baseLangOf s = baseLangOf (Js.replaceAll "_" "-" x).
Proof.
  intros H. apply normalizeLocaleIn_shape in H as [-> | H]; [reflexivity|].
  apply baseLanguageIndex_entry in H as [H _]. exact H.
Qed.

Lemma normalizeLocaleIn_keeps_base_zh :
  baseLangOf "zh-BO" = baseLangOf (Js.replaceAll "_" "-" "ZH_hant_HK").
Proof.
  apply (normalizeLocaleIn_keeps_base catalogCodes "ZH_hant_HK" "zh-BO").
  vm_compute. reflexivity.
Defined.

(** A string result of [normalizeLocale] is a fixed point: normalizing
    twice gives what normalizing once gives. *)
Theorem normalizeLocale_idempotent (x s : string) :
  normalizeLocale x = Js.Str s -> normalizeLocale s = Js.Str s.
Proof.
  unfold normalizeLocale. intros H.
  destruct (normalizeLocaleIn_shape catalogCodes x s H) as [-> | Hidx].
  - rewrite normalizeLocaleIn_replaced. exact H.
  - apply index_value_in_catalog in Hidx as [Hc _].
    apply normalizeLocaleIn_catalog_code;
      [exact Hc | apply catalog_codes_noUnderscore, Hc].
Qed.

Lemma normalizeLocale_idempotent_unknown :
  normalizeLocale "xx-YY" = Js.Str "xx-YY" /\
  normalizeLocale "pt-BR" = Js.Str "pt-BR".
Proof.
  split.
  - apply (normalizeLocale_idempotent "xx_YY" "xx-YY"). vm_compute. reflexivity.
  - apply (normalizeLocale_idempotent "PT" "pt-BR"). vm_compute. reflexivity.
Defined.

Lemma inherited_base_not_catalog_base (k c : string) :
  In k Js.objectPrototypeKeys -> In c catalogCodes ->
  baseLangOf k <> baseLangOf c.
Proof.
  intros Hk Hc.
  assert (H : forallb (fun k' =>
                forallb (fun c' => negb (String.eqb (baseLangOf k') (baseLangOf c')))
                        catalogCodes)
              Js.objectPrototypeKeys = true) by (vm_compute; reflexivity).
  apply (forallb_In _ _ k H) in Hk. apply (forallb_In _ _ c Hk) in Hc.
  apply negb_true_iff, String.eqb_neq in Hc. exact Hc.
Qed.

(** The detector's path for a tag that is no catalog code but whose base
    language the catalog has. *)
Lemma detect_first_variant (x c : string) :
  ~ In x catalogCodes ->
  firstWithBase catalogCodes (baseLangOf x) = Some c ->
  convertDetectedLanguage x
  = Js.Str (if String.eqb (baseLangOf x) "en" then "en-GB" else c).
Proof.
  intros Hnot Hfirst.
  pose proof Hfirst as Hfound. unfold firstWithBase in Hfound.
  apply find_some in Hfound as [Hc Hbase]. apply String.eqb_eq in Hbase.
  assert (Hhas : Js.has catalogCodes x = false).
  { unfold Js.has. apply orb_false_iff. split; apply includes_not_In.
    - exact Hnot.
    - intros Hk. apply (inherited_base_not_catalog_base x c Hk Hc).
      symmetry. exact Hbase. }
  assert (Hproto : Js.includes Js.objectPrototypeKeys (baseLangOf x) = false).
  { rewrite <- Hbase. apply catalog_base_not_inherited, Hc. }
  unfold convertDetectedLanguage, convertDetectedLanguageIn. rewrite Hhas.
  change (Js.toLowerCase (Js.splitHead "-" x)) with (baseLangOf x).
  unfold Js.get.
  rewrite (baseLanguageIndex_lookup _ _ catalog_codes_nonempty Hproto), Hfirst.
  destruct (String.eqb (baseLangOf x) "en"); [reflexivity|].
  cbn [Js.truthy].
  assert (Hne : c <> "").
  { pose proof catalog_codes_nonempty as Hall.
    rewrite List.Forall_forall in Hall. apply Hall, Hc. }
  apply String.eqb_neq in Hne. rewrite Hne. reflexivity.
Qed.

(** The detector's path for a tag whose base language the catalog lacks. *)
Lemma detect_unknown_base (x : string) :
  firstWithBase catalogCodes (baseLangOf x) = None ->
  ~ In (baseLangOf x) Js.objectPrototypeKeys ->
  convertDetectedLanguage x = Js.Str x.
Proof.
  intros Hnone Hproto. apply includes_not_In in Hproto.
  unfold convertDetectedLanguage, convertDetectedLanguageIn.
  destruct (Js.has catalogCodes x); [reflexivity|].
  change (Js.toLowerCase (Js.splitHead "-" x)) with (baseLangOf x).
  unfold Js.get.
  rewrite (baseLanguageIndex_lookup _ _ catalog_codes_nonempty Hproto), Hnone.
  destruct (String.eqb_spec (baseLangOf x) "en") as [Hen | _].
  - exfalso. rewrite Hen in Hnone. vm_compute in Hnone. discriminate.
  - rewrite Hproto. reflexivity.
Qed.

(** Region and script of a tag that is no catalog code are ignored: the
    tag goes to the first catalog code of its base language (en-GB for
    English), so pt_pt gives pt-BR and zh-Hant-HK gives zh-BO. *)
Theorem normalizeLocale_first_variant (x c : string) :
  ~ In (Js.replaceAll "_" "-" x) catalogCodes ->
  firstWithBase catalogCodes (baseLangOf (Js.replaceAll "_" "-" x)) = Some c ->
  normalizeLocale x
  = Js.Str (if String.eqb (baseLangOf (Js.replaceAll "_" "-" x)) "en"
            then "en-GB" else c).
Proof.
  intros Hnot Hfirst.
  exact (detect_first_variant (Js.replaceAll "_" "-" x) c Hnot Hfirst).
Qed.

Lemma normalizeLocale_first_variant_pt :
  normalizeLocale "pt_pt" = Js.Str "pt-BR" /\
  normalizeLocale "en-US" = Js.Str "en-GB".
Proof.
  split.
  - apply (normalizeLocale_first_variant "pt_pt" "pt-BR").
    + apply includes_not_In. vm_compute. reflexivity.
    + vm_compute. reflexivity.
  - apply (normalizeLocale_first_variant "en-US" "en-GB").
    + apply includes_not_In. vm_compute. reflexivity.
    + vm_compute. reflexivity.
Defined.

(** An ASCII tag whose base language the catalog lacks comes back with
    only its underscores replaced. *)
Theorem normalizeLocale_unknown_base (x : string) :
  isAscii x = true ->
  firstWithBase catalogCodes (baseLangOf (Js.replaceAll "_" "-" x)) = None ->
  ~ In (baseLangOf (Js.replaceAll "_" "-" x)) Js.objectPrototypeKeys ->
  normalizeLocale x = Js.Str (Js.replaceAll "_" "-" x).
Proof.
  intros _ Hnone Hproto.
  exact (detect_unknown_base (Js.replaceAll "_" "-" x) Hnone Hproto).
Qed.

Lemma normalizeLocale_unknown_base_xx :
  normalizeLocale "xx_YY" = Js.Str "xx-YY".
Proof.
  apply (normalizeLocale_unknown_base "xx_YY").
  - reflexivity.
  - vm_compute. reflexivity.
  - apply includes_not_In. vm_compute. reflexivity.
Defined.

(** The detector returns every catalog code as it is, and sends any other
    tag whose base language the catalog has to the first code of that
    language (en-GB for English). *)
Theorem convertDetectedLanguage_resolves :
  (forall c, In c catalogCodes -> convertDetectedLanguage c = Js.Str c) /\
  (forall x c,
      ~ In x catalogCodes ->
      firstWithBase catalogCodes (baseLangOf x) = Some c ->
      convertDetectedLanguage x
      = Js.Str (if String.eqb (baseLangOf x) "en" then "en-GB" else c)).
Proof.
  split.
  - intros c Hc. unfold convertDetectedLanguage, convertDetectedLanguageIn.
    rewrite (has_catalog_code catalogCodes c Hc). reflexivity.
  - exact detect_first_variant.
Qed.

Lemma convertDetectedLanguage_resolves_de :
  convertDetectedLanguage "de-AT" = Js.Str "de-DE" /\
  convertDetectedLanguage "pt-PT" = Js.Str "pt-PT".
Proof.
  split.
  - apply (proj2 convertDetectedLanguage_resolves "de-AT" "de-DE").
    + apply includes_not_In. vm_compute. reflexivity.
    + vm_compute. reflexivity.
  - apply (proj1 convertDetectedLanguage_resolves "pt-PT").
    apply includes_In. vm_compute. reflexivity.
Defined.

Lemma lowerChar_underscore (a : ascii) :
  Ascii.eqb (Js.lowerChar a) "_" = Ascii.eqb a "_".
Proof. destruct a as [[] [] [] [] [] [] [] []]; reflexivity. Qed.

Lemma toLowerCase_noUnderscore (s : string) :
  noUnderscore (Js.toLowerCase s) = noUnderscore s.
Proof.
  induction s as [|a s IH]; cbn [Js.toLowerCase noUnderscore]; [reflexivity|].
  rewrite lowerChar_underscore, IH. reflexivity.
Qed.

Lemma catalog_base_noUnderscore (c : string) :
  In c catalogCodes -> noUnderscore (baseLangOf c) = true.
Proof.
  apply (forallb_In (fun code => noUnderscore (baseLangOf code))).
  vm_compute. reflexivity.
Qed.

(** The detector does not read the underscore form: a tag with an
    underscore before its first hyphen, such as de_DE, is handed back
    unchanged, where [normalizeLocale] would have found de-DE. *)
Theorem convertDetectedLanguage_underscore_unmapped (x : string) :
  noUnderscore (Js.splitHead "-" x) = false ->
  ~ In (baseLangOf x) Js.objectPrototypeKeys ->
  convertDetectedLanguage x = Js.Str x.
Proof.
  intros Hund Hproto. apply detect_unknown_base; [|exact Hproto].
  destruct (firstWithBase catalogCodes (baseLangOf x)) as [c|] eqn:Hfirst;
    [|reflexivity].
  exfalso. unfold firstWithBase in Hfirst.
  apply find_some in Hfirst as [Hc Hbase]. apply String.eqb_eq in Hbase.
  pose proof (catalog_base_noUnderscore c Hc) as Hclean.
  rewrite Hbase in Hclean. unfold baseLangOf in Hclean.
  rewrite toLowerCase_noUnderscore in Hclean. congruence.
Qed.

Lemma convertDetectedLanguage_underscore_unmapped_de :
  convertDetectedLanguage "de_DE" = Js.Str "de_DE".
Proof.
  apply (convertDetectedLanguage_underscore_unmapped "de_DE").
  - reflexivity.
  - apply includes_not_In. vm_compute. reflexivity.
Defined.

(** Every language of the catalog can be asked for by its bare tag: the
    base language of a catalog code normalizes to a catalog code of that
    same language. *)
Theorem normalizeLocale_covers_catalog (c : string) :
  In c catalogCodes ->
  exists c', normalizeLocale (baseLangOf c) = Js.Str c' /\
             In c' catalogCodes /\
             baseLangOf c' = baseLangOf c.
Proof.
  intros Hc.
  assert (Hbare : ~ In (Js.replaceAll "_" "-" (baseLangOf c)) catalogCodes).
  { rewrite (replaceAll_noUnderscore _ (catalog_base_noUnderscore c Hc)).
    revert Hc. generalize c. apply List.Forall_forall.
    assert (H : forallb (fun code => negb (Js.includes catalogCodes (baseLangOf code)))
                        catalogCodes = true) by (vm_compute; reflexivity).
    apply List.Forall_forall. intros code Hcode.
    apply (forallb_In _ _ code H) in Hcode.
    apply negb_true_iff in Hcode. apply includes_not_In, Hcode. }
  assert (Hidem : baseLangOf (Js.replaceAll "_" "-" (baseLangOf c)) = baseLangOf c).
  { rewrite (replaceAll_noUnderscore _ (catalog_base_noUnderscore c Hc)).
    revert Hc. generalize c. apply List.Forall_forall.
    assert (H : forallb (fun code => String.eqb (baseLangOf (baseLangOf code))
                                                (baseLangOf code))
                        catalogCodes = true) by (vm_compute; reflexivity).
    apply List.Forall_forall. intros code Hcode.
    apply (forallb_In _ _ code H) in Hcode. apply String.eqb_eq, Hcode. }
  destruct (firstWithBase catalogCodes (baseLangOf c)) as [c1|] eqn:Hfirst.
  - pose proof Hfirst as Hfound. unfold firstWithBase in Hfound.
    apply find_some in Hfound as [Hc1 Hb1]. apply String.eqb_eq in Hb1.
    pose proof (detect_first_variant (Js.replaceAll "_" "-" (baseLangOf c)) c1 Hbare)
      as Hres.
    rewrite Hidem in Hres. specialize (Hres Hfirst).
    change (normalizeLocale (baseLangOf c)
            = Js.Str (if String.eqb (baseLangOf c) "en" then "en-GB" else c1))
      in Hres.
    destruct (String.eqb_spec (baseLangOf c) "en") as [Hen | _].
    + exists "en-GB". split; [exact Hres|].
      split; [exact fallback_in_catalog | rewrite Hen; reflexivity].
    + exists c1. split; [exact Hres|]. split; [exact Hc1 | exact Hb1].
  - exfalso. unfold firstWithBase in Hfirst.
    apply (find_none _ _ Hfirst c) in Hc. rewrite String.eqb_refl in Hc.
    discriminate.
Qed.

Lemma normalizeLocale_covers_catalog_zh :
  exists c', normalizeLocale (baseLangOf "zh-TW") = Js.Str c' /\
             In c' catalogCodes /\
             baseLangOf c' = baseLangOf "zh-TW".
Proof.
  apply (normalizeLocale_covers_catalog "zh-TW").
  apply includes_In. vm_compute. reflexivity.
Defined.

(** ** The supported-set manager, further *)

Lemma restrict_guard_after (cfg : list string) (w : World) :
  cfg <> [] ->
  Js.truthyString (language (updateSupportedLanguages (Some cfg) w))
  && negb (match language (updateSupportedLanguages (Some cfg) w) with
           | Some l => Js.includes (validLanguagesOf cfg) l
           | None => false
           end) = false.
Proof.
  intros Hcfg. rewrite (updateSupportedLanguages_restrict cfg w Hcfg). cbv zeta.
  destruct (Js.truthyString (language w) && _) eqn:Hguard.
  - cbn [changeLanguage onLanguageChanged language Js.truthyString].
    destruct (validLanguagesOf_head cfg) as (t & -> & _). reflexivity.
  - cbn [language]. exact Hguard.
Qed.

(** The list a restriction stores: en-GB first, no code twice, and in it
    exactly en-GB and the requested codes that are catalog codes or names
    inherited from [Object.prototype]. *)
Theorem restrict_supported_list (cfg : list string) (w : World) :
  cfg <> [] ->
  (exists t, supportedLngs (updateSupportedLanguages (Some cfg) w) = "en-GB" :: t) /\
  List.NoDup (supportedLngs (updateSupportedLanguages (Some cfg) w)) /\
  forall x,
    In x (supportedLngs (updateSupportedLanguages (Some cfg) w)) <->
    (x = "en-GB" \/ In x cfg) /\
    (In x catalogCodes \/ In x Js.objectPrototypeKeys).
Proof.
  intros Hcfg. rewrite (supportedLngs_restrict cfg w Hcfg).
  split; [|split].
  - destruct (validLanguagesOf_head cfg) as (t & Ht & _). exists t. exact Ht.
  - apply NoDup_validLanguagesOf.
  - intros x. rewrite In_validLanguagesOf. unfold Js.has.
    rewrite orb_true_iff, !includes_In. reflexivity.
Qed.

Lemma restrict_supported_list_dup :
  (exists t,
      supportedLngs
        (updateSupportedLanguages (Some ["fr-FR"; "en-GB"; "fr-FR"; "xx"])
           (freshWorld "fr-FR"))
      = "en-GB" :: t) /\
  supportedLngs
    (updateSupportedLanguages (Some ["fr-FR"; "en-GB"; "fr-FR"; "xx"])
       (freshWorld "fr-FR"))
  = ["en-GB"; "fr-FR"].
Proof.
  split.
  - apply (restrict_supported_list ["fr-FR"; "en-GB"; "fr-FR"; "xx"]
             (freshWorld "fr-FR")).
    discriminate.
  - vm_compute. reflexivity.
Defined.

(** Calling [updateSupportedLanguages] twice with the same argument leaves
    the state the first call left. *)
Theorem restrict_idempotent (arg : option (list string)) (w : World) :
  updateSupportedLanguages arg (updateSupportedLanguages arg w)
  = updateSupportedLanguages arg w.
Proof.
  destruct arg as [cfg|]; [|reflexivity].
  destruct cfg as [|c cfg]; [reflexivity|].
  assert (Hcfg : c :: cfg <> []) by discriminate.
  pose proof (restrict_guard_after (c :: cfg) w Hcfg) as Hguard.
  pose proof (supportedLngs_restrict (c :: cfg) w Hcfg) as Hsup.
  rewrite (updateSupportedLanguages_restrict (c :: cfg)
             (updateSupportedLanguages (Some (c :: cfg)) w) Hcfg).
  cbv zeta. rewrite Hguard, <- Hsup.
  destruct (updateSupportedLanguages (Some (c :: cfg)) w). reflexivity.
Qed.

(** Restrictions do not add up: the list stored by a call with a non-empty
    argument is the same whatever was called before. *)
Theorem restrict_supersedes (cfg : list string) (earlier : list call) (w : World) :
  cfg <> [] ->
  supportedLngs (updateSupportedLanguages (Some cfg) (run earlier w))
  = supportedLngs (updateSupportedLanguages (Some cfg) w).
Proof.
  intros Hcfg. rewrite !supportedLngs_restrict by exact Hcfg. reflexivity.
Qed.

Lemma restrict_supersedes_widen :
  supportedLngs
    (updateSupportedLanguages (Some ["ja-JP"; "de-DE"])
       (run [Restrict (Some ["de-DE"]); ApplyDefault (Some "fr")] (freshWorld "ja-JP")))
  = supportedLngs
      (updateSupportedLanguages (Some ["ja-JP"; "de-DE"]) (freshWorld "ja-JP")).
Proof.
  apply (restrict_supersedes ["ja-JP"; "de-DE"]
           [Restrict (Some ["de-DE"]); ApplyDefault (Some "fr")]
           (freshWorld "ja-JP")).
  discriminate.
Defined.

Lemma restrict_active_in_valid (cfg : list string) (w : World) (l : string) :
  cfg <> [] ->
  language (updateSupportedLanguages (Some cfg) w) = Some l ->
  l <> "" ->
  In l (validLanguagesOf cfg).
Proof.
  intros Hcfg Hl Hne.
  pose proof (restrict_guard_after cfg w Hcfg) as Hguard.
  rewrite Hl in Hguard. cbn [Js.truthyString] in Hguard.
  apply String.eqb_neq in Hne. rewrite Hne in Hguard. cbn [negb andb] in Hguard.
  apply negb_false_iff, includes_In in Hguard. exact Hguard.
Qed.

(** After a restriction the active locale, when there is one, is in the
    supported list. *)
Theorem restrict_active_locale_supported
    (cfg : list string) (w : World) (l : string) :
  cfg <> [] ->
  language (updateSupportedLanguages (Some cfg) w) = Some l ->
  l <> "" ->
  In l (supportedLngs (updateSupportedLanguages (Some cfg) w)).
Proof.
  intros Hcfg Hl Hne. rewrite (supportedLngs_restrict cfg w Hcfg).
  exact (restrict_active_in_valid cfg w l Hcfg Hl Hne).
Qed.

Lemma restrict_active_locale_supported_ja :
  In "en-GB"
     (supportedLngs (updateSupportedLanguages (Some ["de-DE"]) (freshWorld "ja-JP"))).
Proof.
  apply (restrict_active_locale_supported ["de-DE"] (freshWorld "ja-JP") "en-GB").
  - discriminate.
  - vm_compute. reflexivity.
  - discriminate.
Defined.

(** A restriction leaves the active locale, the document and the store
    alone when the active locale is en-GB or a requested catalog code: no
    language change is made. *)
Theorem restrict_keeps_requested_locale
    (cfg : list string) (w : World) (l : string) :
  cfg <> [] ->
  language w = Some l ->
  l = "en-GB" \/ In l cfg ->
  In l catalogCodes ->
  language (updateSupportedLanguages (Some cfg) w) = Some l /\
  documentDir (updateSupportedLanguages (Some cfg) w) = documentDir w /\
  documentLang (updateSupportedLanguages (Some cfg) w) = documentLang w /\
  localStorage (updateSupportedLanguages (Some cfg) w) = localStorage w.
Proof.
  intros Hcfg Hl Hreq Hc.
  rewrite (updateSupportedLanguages_restrict cfg w Hcfg). cbv zeta.
  assert (Hin : Js.includes (validLanguagesOf cfg) l = true).
  { apply includes_In, In_validLanguagesOf.
    split; [exact Hreq | apply has_catalog_code, Hc]. }
  rewrite Hl, Hin. cbn [negb]. rewrite andb_false_r.
  cbn [language documentDir documentLang localStorage].
  repeat split.
Qed.

Lemma restrict_keeps_requested_locale_ar :
  language (updateSupportedLanguages (Some ["de-DE"; "ar-AR"])
              (initWorld (Some "ar-AR") ∅ "rtl" "ar-AR")) = Some "ar-AR" /\
  documentDir (updateSupportedLanguages (Some ["de-DE"; "ar-AR"])
                 (initWorld (Some "ar-AR") ∅ "rtl" "ar-AR")) = "rtl".
Proof.
  destruct (restrict_keeps_requested_locale ["de-DE"; "ar-AR"]
              (initWorld (Some "ar-AR") ∅ "rtl" "ar-AR") "ar-AR")
    as (H1 & H2 & _).
  - discriminate.
  - reflexivity.
  - right. right. left. reflexivity.
  - apply includes_In. vm_compute. reflexivity.
  - split; [exact H1 | exact H2].
Defined.

(** ** The default-locale applier, further *)

Lemma replaceAll_empty_iff (d : string) :
  String.eqb (Js.replaceAll "_" "-" d) "" = String.eqb d "".
Proof. destruct d; reflexivity. Qed.

(** The underscore form and the hyphen form of a default locale are
    treated alike: de_DE and de-DE have the same effect in every state. *)
Theorem applyDefaultLocale_separator_blind (d : string) (w : World) :
  applyDefaultLocale (Some (Js.replaceAll "_" "-" d)) w
  = applyDefaultLocale (Some d) w.
Proof.
  unfold applyDefaultLocale, normalizeLocale. cbn [Js.truthyString].
  rewrite replaceAll_empty_iff, normalizeLocaleIn_replaced. reflexivity.
Qed.

(** The two outcomes of [applyDefaultLocale]: nothing, or a change to a
    string that [normalizeLocale] returned and the catalog test accepted. *)
Lemma applyDefaultLocale_cases (d : option string) (w : World) :
  applyDefaultLocale d w = w \/
  exists d0 n, d = Some d0 /\ normalizeLocale d0 = Js.Str n /\
               Js.has catalogCodes n = true /\
               applyDefaultLocale d w = changeLanguage n w.
Proof.
  unfold applyDefaultLocale.
  destruct (negb (Js.truthyString d)); [left; reflexivity|].
  destruct (Js.truthyString (getItem I18N_LANGUAGE_KEY w)); [left; reflexivity|].
  destruct d as [d0|]; [|left; reflexivity].
  destruct (normalizeLocale d0) as [n|k] eqn:Hn; [|left; reflexivity].
  destruct (Js.has catalogCodes n) eqn:Hhas; [|left; reflexivity].
  right. exists d0, n. repeat split; assumption.
Qed.

(** An ASCII default locale in a language the catalog lacks changes
    nothing, even with no user preference stored. *)
Theorem applyDefaultLocale_unknown_noop (d : string) (w : World) :
  isAscii d = true ->
  firstWithBase catalogCodes (baseLangOf (Js.replaceAll "_" "-" d)) = None ->
  ~ In (baseLangOf (Js.replaceAll "_" "-" d)) Js.objectPrototypeKeys ->
  ~ In (Js.replaceAll "_" "-" d) Js.objectPrototypeKeys ->
  applyDefaultLocale (Some d) w = w.
Proof.
  intros _ Hnone Hbase Hname.
  destruct (applyDefaultLocale_cases (Some d) w)
    as [H | (d0 & n & [= <-] & Hn & Hhas & _)]; [exact H|].
  exfalso.
  pose proof (detect_unknown_base (Js.replaceAll "_" "-" d) Hnone Hbase) as Hres.
  change (normalizeLocale d = Js.Str (Js.replaceAll "_" "-" d)) in Hres.
  rewrite Hres in Hn. injection Hn as <-.
  unfold Js.has in Hhas. apply orb_true_iff in Hhas.
  destruct Hhas as [Hhas | Hhas]; apply includes_In in Hhas.
  - unfold firstWithBase in Hnone.
    apply (find_none _ _ Hnone _) in Hhas. rewrite String.eqb_refl in Hhas.
    discriminate.
  - exact (Hname Hhas).
Qed.

Lemma applyDefaultLocale_unknown_noop_xx :
  applyDefaultLocale (Some "xx_YY") (freshWorld "fr-FR") = freshWorld "fr-FR".
Proof.
  apply (applyDefaultLocale_unknown_noop "xx_YY" (freshWorld "fr-FR")).
  - reflexivity.
  - vm_compute. reflexivity.
  - apply includes_not_In. vm_compute. reflexivity.
  - apply includes_not_In. vm_compute. reflexivity.
Defined.

(** With no user preference stored, a default locale that is no catalog
    code but whose language the catalog has makes the first catalog code of
    that language the active locale (en-GB for English): zh_HK activates
    zh-BO. *)
Theorem applyDefaultLocale_first_variant (d c : string) (w : World) :
  getItem I18N_LANGUAGE_KEY w = None ->
  ~ In (Js.replaceAll "_" "-" d) catalogCodes ->
  firstWithBase catalogCodes (baseLangOf (Js.replaceAll "_" "-" d)) = Some c ->
  language (applyDefaultLocale (Some d) w)
  = Some (if String.eqb (baseLangOf (Js.replaceAll "_" "-" d)) "en"
          then "en-GB" else c).
Proof.
  intros Hnone Hnot Hfirst.
  pose proof (detect_first_variant (Js.replaceAll "_" "-" d) c Hnot Hfirst) as Hres.
  change (convertDetectedLanguage (Js.replaceAll "_" "-" d))
    with (normalizeLocale d) in Hres.
  assert (Hcat : In (if String.eqb (baseLangOf (Js.replaceAll "_" "-" d)) "en"
                     then "en-GB" else c) catalogCodes).
  { destruct (String.eqb (baseLangOf (Js.replaceAll "_" "-" d)) "en");
      [exact fallback_in_catalog|].
    unfold firstWithBase in Hfirst. apply find_some in Hfirst as [Hc _]. exact Hc. }
  assert (Hd : Js.truthyString (Some d) = true).
  { cbn [Js.truthyString]. apply negb_true_iff, String.eqb_neq. intros ->.
    vm_compute in Hfirst. discriminate. }
  unfold applyDefaultLocale. rewrite Hd, Hnone, Hres. cbn [negb Js.truthyString].
  rewrite (has_catalog_code catalogCodes _ Hcat). reflexivity.
Qed.

Lemma applyDefaultLocale_first_variant_zh :
  language (applyDefaultLocale (Some "zh_HK") (freshWorld "en-GB")) = Some "zh-BO".
Proof.
  apply (applyDefaultLocale_first_variant "zh_HK" "zh-BO" (freshWorld "en-GB")).
  - vm_compute. reflexivity.
  - apply includes_not_In. vm_compute. reflexivity.
  - vm_compute. reflexivity.
Defined.

(** ** The configuration watcher, further *)

(** With a user preference stored, a loaded configuration only restricts:
    its default locale is not applied, but its language list still is, and
    with it the switch to en-GB when the chosen locale is not offered. *)
Theorem appConfigEffect_with_preference
    (cfg : AppConfig) (w : World) (v : string) :
  getItem I18N_LANGUAGE_KEY w = Some v ->
  v <> "" ->
  appConfigEffect (Some cfg) false w
  = updateSupportedLanguages (languages cfg) w.
Proof.
  intros Hv Hne. unfold appConfigEffect. cbn [negb].
  unfold applyDefaultLocale.
  destruct (negb (Js.truthyString (defaultLocale cfg))); [reflexivity|].
  unfold getItem. rewrite localStorage_restrict.
  unfold getItem in Hv. rewrite Hv. cbn [Js.truthyString].
  apply String.eqb_neq in Hne. rewrite Hne. reflexivity.
Qed.

Lemma appConfigEffect_with_preference_ja :
  language
    (appConfigEffect (Some (mkAppConfig (Some ["de-DE"]) (Some "fr_FR"))) false
       (initWorld (Some "ja-JP") (storedPreference "ja-JP") "ltr" "ja-JP"))
  = Some "en-GB".
Proof.
  rewrite (appConfigEffect_with_preference
             (mkAppConfig (Some ["de-DE"]) (Some "fr_FR"))
             (initWorld (Some "ja-JP") (storedPreference "ja-JP") "ltr" "ja-JP")
             "ja-JP").
  - vm_compute. reflexivity.
  - apply lookup_singleton_eq.
  - discriminate.
Defined.

(** After a configuration with a non-empty language list is applied, the
    active locale, when there is one, is in the supported list, unless it
    is what the configured default locale normalizes to. *)
Theorem appConfigEffect_active_locale
    (cfg : AppConfig) (langs : list string) (w : World) (l : string) :
  languages cfg = Some langs ->
  langs <> [] ->
  language (appConfigEffect (Some cfg) false w) = Some l ->
  l <> "" ->
  In l (supportedLngs (appConfigEffect (Some cfg) false w)) \/
  exists d, defaultLocale cfg = Some d /\ normalizeLocale d = Js.Str l.
Proof.
  intros Hlangs Hne Hl Hl0. unfold appConfigEffect in *. cbn [negb] in *.
  rewrite Hlangs in *. rewrite supportedLngs_applyDefaultLocale.
  destruct (applyDefaultLocale_cases (defaultLocale cfg)
              (updateSupportedLanguages (Some langs) w))
    as [Hsame | (d0 & n & Hd & Hn & _ & Hchg)].
  - left. rewrite Hsame in Hl. rewrite (supportedLngs_restrict langs w Hne).
    exact (restrict_active_in_valid langs w l Hne Hl Hl0).
  - right. exists d0. split; [exact Hd|].
    rewrite Hchg in Hl. cbn [changeLanguage onLanguageChanged language] in Hl.
    injection Hl as <-. exact Hn.
Qed.

Lemma appConfigEffect_active_locale_de :
  In "de-DE"
     (supportedLngs
        (appConfigEffect (Some (mkAppConfig (Some ["fr-FR"]) (Some "de_DE"))) false
           (freshWorld "en-GB"))) \/
  exists d, Some "de_DE" = Some d /\ normalizeLocale d = Js.Str "de-DE".
Proof.
  apply (appConfigEffect_active_locale
           (mkAppConfig (Some ["fr-FR"]) (Some "de_DE")) ["fr-FR"]
           (freshWorld "en-GB") "de-DE").
  - reflexivity.
  - discriminate.
  - vm_compute. reflexivity.
  - discriminate.
Defined.

(** ** The load path *)

Lemma endsWith_append_slash (b : string) :
  endsWith (String.append b "/") "/" = true.
Proof.
  induction b as [|a b IH]; [reflexivity|].
  destruct b as [|a' b]; [reflexivity|]. exact IH.
Qed.

Lemma sliceInit_append_slash (b : string) :
  sliceInit (String.append b "/") = b.
Proof.
  induction b as [|a b IH]; [reflexivity|].
  destruct b as [|a' b]; [reflexivity|].
  transitivity (String a (sliceInit (String.append (String a' b) "/")));
    [reflexivity | rewrite IH; reflexivity].
Qed.

Lemma truthy_append_slash (b : string) :
  Js.truthyString (Some (String.append b "/")) = true.
Proof. destruct b; reflexivity. Qed.

(** [loadPath] takes exactly one trailing slash off the base URL: a base
    made of any [b] and a slash gives [b] followed by the path of an absent
    base URL, so a slash that ends [b] stays; a base that does not end in a
    slash is used whole; an absent base URL gives
    /locales/<lng>/<namespace>.toml. *)
Theorem loadPath_trailing_slash (lngs namespaces : list string) :
  (forall b : string,
      loadPath (Some (String.append b "/")) lngs namespaces
      = String.append b (loadPath None lngs namespaces)) /\
  (forall base : string,
      endsWith base "/" = false ->
      loadPath (Some base) lngs namespaces
      = String.append base (loadPath None lngs namespaces)) /\
  loadPath None lngs namespaces
  = String.append "/locales/"
      (String.append (templateText (head lngs))
         (String.append "/"
            (String.append (templateText (head namespaces)) ".toml"))).
Proof.
  split; [|split].
  - intros b. unfold loadPath.
    rewrite truthy_append_slash, endsWith_append_slash, sliceInit_append_slash.
    reflexivity.
  - intros base Hends. unfold loadPath.
    destruct base as [|a base]; [reflexivity|].
    cbn [Js.truthyString String.eqb negb]. rewrite Hends. reflexivity.
  - reflexivity.
Qed.

Lemma loadPath_trailing_slash_app :
  loadPath (Some "/app//") ["de-DE"] ["translation"]
  = "/app//locales/de-DE/translation.toml" /\
  loadPath (Some "/app/") ["de-DE"] ["translation"]
  = "/app/locales/de-DE/translation.toml" /\
  loadPath (Some "/app") ["de-DE"] ["translation"]
  = "/app/locales/de-DE/translation.toml".
Proof.
  destruct (loadPath_trailing_slash ["de-DE"] ["translation"]) as (H1 & H2 & _).
  split; [|split].
  - exact (H1 "/app/").
  - exact (H1 "/app").
  - exact (H2 "/app" eq_refl).
Defined.

(** ** The language-change listener *)

Lemma documentFollows_changeLanguage (lng : string) (w : World) :
  documentFollows (changeLanguage lng w).
Proof.
  intros l Hl. cbn [changeLanguage onLanguageChanged language] in Hl.
  injection Hl as <-. split; reflexivity.
Qed.

Lemma documentFollows_restrict (arg : option (list string)) (w : World) :
  documentFollows w -> documentFollows (updateSupportedLanguages arg w).
Proof.
  intros Hw. destruct arg as [cfg|]; [|exact Hw].
  destruct cfg as [|c cfg]; [exact Hw|].
  rewrite updateSupportedLanguages_restrict by discriminate. cbv zeta.
  destruct (Js.truthyString (language w) && _).
  - apply documentFollows_changeLanguage.
  - exact Hw.
Qed.

Lemma documentFollows_applyDefault (d : option string) (w : World) :
  documentFollows w -> documentFollows (applyDefaultLocale d w).
Proof.
  intros Hw.
  destruct (applyDefaultLocale_cases d w) as [-> | (d0 & n & _ & _ & _ & ->)].
  - exact Hw.
  - apply documentFollows_changeLanguage.
Qed.

(** The document never falls behind the active locale: if its language
    and direction agree with the active locale, they still do after any
    sequence of calls of [updateSupportedLanguages] and
    [applyDefaultLocale], and after the watcher applies a configuration. *)
Theorem document_follows_language (w : World) :
  documentFollows w ->
  (forall calls : list call, documentFollows (run calls w)) /\
  (forall (config : option AppConfig) (loading : bool),
      documentFollows (appConfigEffect config loading w)).
Proof.
  intros Hw. split.
  - intros calls. revert w Hw. unfold run.
    induction calls as [|c calls IH]; intros w Hw; cbn [fold_left].
    + exact Hw.
    + apply IH. destruct c as [arg | d]; cbn [perform].
      * apply documentFollows_restrict, Hw.
      * apply documentFollows_applyDefault, Hw.
  - intros config loading. unfold appConfigEffect.
    destruct config as [cfg|]; [|exact Hw].
    destruct (negb loading); [|exact Hw].
    apply documentFollows_applyDefault, documentFollows_restrict, Hw.
Qed.

Lemma document_follows_language_ar :
  documentDir
    (run [Restrict (Some ["ar-AR"; "de-DE"]); ApplyDefault (Some "ar")]
       (freshWorld "ja-JP")) = "rtl" /\
  documentLang
    (run [Restrict (Some ["ar-AR"; "de-DE"]); ApplyDefault (Some "ar")]
       (freshWorld "ja-JP")) = "ar-AR".
Proof.
  assert (H0 : documentFollows (freshWorld "ja-JP")).
  { intros l Hl. cbn in Hl. injection Hl as <-. split; reflexivity. }
  destruct (proj1 (document_follows_language (freshWorld "ja-JP") H0)
              [Restrict (Some ["ar-AR"; "de-DE"]); ApplyDefault (Some "ar")]
              "ar-AR") as [Hlang Hdir].
  - vm_compute. reflexivity.
  - split; [exact Hdir | exact Hlang].
Defined.
